(** * Instrumentation core of llama_index: dispatcher registry, event tags,
      span wrapping and the subclass hook

    Shallow embedding of
    [llama-index-core/llama_index/core/instrumentation/__init__.py].

    The module binds [root_dispatcher] once and keeps two globals that
    change, the registry [root_manager] and the context variable
    [active_event_tags]; [get_dispatcher], [event_tags] and
    [DispatcherSpanMixin.__init_subclass__] read and update them.  The
    embedding threads them, the store of dispatcher objects and the record
    of handler notifications through a state-and-exception monad: a Python
    exception is the [Raise] result, and the state reached when it was
    raised is kept, as in Python.

    Classes [Dispatcher] and [Manager] and the handlers are defined in
    modules that are not among the sources; what this module needs of them
    is modelled from the specification and marked so. *)

From Stdlib Require Import String Ascii List ZArith.
From stdpp Require Import base option list strings gmap fin_maps.

Open Scope string_scope.
Open Scope list_scope.

(** ** Python strings: [str.split] and [str.join] *)

(** [s.split(sep)] for a one-character separator: every occurrence of the
    separator ends a segment, so the result is never empty and
    splitting the empty string gives one empty segment. *)
Fixpoint str_split (sep : ascii) (s : string) : list string :=
  match s with
  | EmptyString => [EmptyString]
  | String c s' =>
      if Ascii.eqb c sep then EmptyString :: str_split sep s'
      else match str_split sep s' with
           | [] => [String c EmptyString]
           | seg :: segs => String c seg :: segs
           end
  end.

(** [sep.join(l)]. *)
Fixpoint str_join (sep : string) (l : list string) : string :=
  match l with
  | [] => EmptyString
  | [x] => x
  | x :: rest => x +:+ sep +:+ str_join sep rest
  end.

(** [l[:-1]]: everything but the last element (empty for an empty list). *)
Definition drop_last {A} (l : list A) : list A := removelast l.

Definition dot : ascii := "."%char.

(** Line 42: [".".join(name.split(".")[:-1])]. *)
Definition candidate_parent (name : string) : string :=
  str_join "." (drop_last (str_split dot name)).

(** A string without the separator. *)
Fixpoint dot_free (s : string) : bool :=
  match s with
  | EmptyString => true
  | String c s' => negb (Ascii.eqb c dot) && dot_free s'
  end.

(** ** Values, exceptions, handlers *)

Inductive Value :=
| VNone
| VInt (z : Z)
| VStr (s : string).

Abbreviation Tags := (gmap string Value).

(** The error taxonomy of the instrumentation layer, and the failures of
    the instrumented operations themselves. *)
Inductive Exn :=
| DuplicateNameError (name : string)
| HandlerFailure (reason : Value)
| OperationFailure (reason : Value)
| InvalidReference.

(** How a span ends. *)
Inductive Outcome :=
| Success (payload : Value)
| Failed (reason : Exn).

(** Modelled from the spec: the [EventHandler] capability.  Handlers are
    pluggable; a handler is identified by [eh_id], and what it answers to a
    notification is [None] when it returns normally and [Some e] when it
    fails with [e]. *)
Record EventHandler := {
  eh_id : nat;
  handle : Value -> option Exn
}.

(** Modelled from the spec: the [SpanHandler] capability, with its
    [onEnter(spanId, dispatcherName, boundInputs)] and
    [onExit(spanId, outcome)]. *)
Record SpanHandler := {
  sh_id : nat;
  on_enter : nat -> string -> list Value -> option Exn;
  on_exit : nat -> Outcome -> option Exn
}.

(** Modelled from the spec: [NullEventHandler] and [NullSpanHandler] are
    imported from modules that are not part of the sources; the default
    implementations perform no action and never fail. *)
Definition NullEventHandler : EventHandler :=
  {| eh_id := 0; handle := fun _ => None |}.

(** Modelled from the spec: [NullSpanHandler], the no-op span handler. *)
Definition NullSpanHandler : SpanHandler :=
  {| sh_id := 0; on_enter := fun _ _ _ => None; on_exit := fun _ _ => None |}.

(** ** Dispatchers, the manager and the module state *)

(** A reference to a dispatcher object: the one bound to the module global
    [root_dispatcher], or one constructed later by [get_dispatcher]. *)
Inductive DispatcherRef :=
| root_ref
| heap_ref (addr : nat).

#[global] Instance DispatcherRef_eq_dec : EqDecision DispatcherRef.
Proof. solve_decision. Defined.

(** The only manager is the module global [root_manager]. *)
Inductive ManagerRef := root_manager_ref.

(** Modelled from the spec: the fields of class [Dispatcher]
    ([dispatcher.py] is not among the sources), under the names the
    constructor calls of lines 15-20 and 48-53 give them. *)
Record Dispatcher := {
  name : string;
  event_handlers : list EventHandler;
  span_handlers : list SpanHandler;
  parent_name : string;
  manager : option ManagerRef;
  root_name : string;
  propagate : bool
}.

(** Modelled from the spec: the registry, a mapping from names to
    dispatcher objects, read as [root_manager.dispatchers] on lines 39-43. *)
Record Manager := {
  dispatchers : gmap string DispatcherRef
}.

(** Lines 15-20: the module global [root_dispatcher], bound once when the
    module is imported and never assigned again.  The constructor call
    leaves out [parent_name] (empty for the root), [manager] and
    [root_name]. *)
Definition root_dispatcher : Dispatcher :=
  {| name := "root";
     event_handlers := [NullEventHandler];
     span_handlers := [NullSpanHandler];
     parent_name := EmptyString;
     manager := None;
     root_name := "root";
     propagate := false |}.

(** [root_dispatcher.name]. *)
Definition root_dispatcher_name : string := name root_dispatcher.

(** What a span handler was told, in the order the calls were made. *)
Inductive Notification :=
| SpanEnter (handler : nat) (span_id : nat) (dispatcher_name : string)
            (bound_args : list Value)
| SpanExit (handler : nat) (span_id : nat) (outcome : Outcome).

Record State := {
  root_manager : Manager;
  active_event_tags : option Tags;
  heap : list Dispatcher;
  notifications : list Notification;
  next_span_id : nat
}.

(** ** The state-and-exception monad *)

Inductive Result (A : Type) :=
| Return (a : A)
| Raise (e : Exn).
Arguments Return {A} a.
Arguments Raise {A} e.

Definition M (A : Type) : Type := State -> Result A * State.

#[global] Instance M_ret : MRet M := fun A a σ => (Return a, σ).

#[global] Instance M_bind : MBind M := fun A B f m σ =>
  match m σ with
  | (Return a, σ') => f a σ'
  | (Raise e, σ') => (Raise e, σ')
  end.

Definition raise {A} (e : Exn) : M A := fun σ => (Raise e, σ).
Definition get_state : M State := fun σ => (Return σ, σ).
Definition put_state (σ' : State) : M unit := fun _ => (Return tt, σ').

(** ** Object store *)

Definition deref (σ : State) (r : DispatcherRef) : option Dispatcher :=
  match r with
  | root_ref => Some root_dispatcher
  | heap_ref a => heap σ !! a
  end.

Definition read (r : DispatcherRef) : M Dispatcher := fun σ =>
  match deref σ r with
  | Some d => (Return d, σ)
  | None => (Raise InvalidReference, σ)
  end.

(** Constructing a dispatcher allocates a new object. *)
Definition alloc (d : Dispatcher) : M DispatcherRef := fun σ =>
  (Return (heap_ref (length (heap σ))),
   {| root_manager := root_manager σ;
      active_event_tags := active_event_tags σ;
      heap := heap σ ++ [d];
      notifications := notifications σ;
      next_span_id := next_span_id σ |}).

Definition set_root_manager (m : Manager) (σ : State) : State :=
  {| root_manager := m;
     active_event_tags := active_event_tags σ;
     heap := heap σ;
     notifications := notifications σ;
     next_span_id := next_span_id σ |}.

(** ** [Manager] and [Dispatcher] constructors *)

(** Modelled from the spec: class [Manager] lives in [dispatcher.py], which
    is not part of the sources.  The registry is bound to the root
    dispatcher it is built from: its mapping starts with the root under the
    root's name. *)
Definition Manager_init (root : Dispatcher) : Manager :=
  {| dispatchers := {[ name root := root_ref ]} |}.

(** Modelled from the spec: [Manager.add_dispatcher] ([add]) inserts a
    constructed dispatcher keyed by its name and fails with
    [DuplicateNameError] when the name is already there. *)
Definition add_dispatcher (r : DispatcherRef) : M unit :=
  d ← read r;
  σ ← get_state;
  let ds := dispatchers (root_manager σ) in
  match ds !! name d with
  | Some _ => raise (DuplicateNameError (name d))
  | None => put_state (set_root_manager {| dispatchers := <[name d := r]> ds |} σ)
  end.

(** Field values of class [Dispatcher] that a constructor call leaves out.
    The class is not part of the sources and the specification does not fix
    the defaults of the handler lists and of [propagate], so they are
    parameters of the development. *)
Record DispatcherDefaults := {
  default_event_handlers : list EventHandler;
  default_span_handlers : list SpanHandler;
  default_propagate : bool
}.

(** Lines 22-25: the state right after the module has been imported.
    [active_event_tags] has no value yet, so reading it gives its default. *)
Definition bootstrap : State :=
  {| root_manager := Manager_init root_dispatcher;
     active_event_tags := None;
     heap := [];
     notifications := [];
     next_span_id := 0 |}.

Section Registry.

Variable defaults : DispatcherDefaults.

(** Lines 37-55. *)
Definition get_dispatcher (name : string) : M DispatcherRef :=
  σ ← get_state;
  match dispatchers (root_manager σ) !! name with
  | Some r => mret r
  | None =>
      let candidate_parent_name := candidate_parent name in
      let parent_name :=
        if decide (is_Some (dispatchers (root_manager σ) !! candidate_parent_name))
        then candidate_parent_name
        else "root" in
      new_dispatcher ← alloc
        {| name := name;
           event_handlers := default_event_handlers defaults;
           span_handlers := default_span_handlers defaults;
           parent_name := parent_name;
           manager := Some root_manager_ref;
           root_name := root_dispatcher_name;
           propagate := default_propagate defaults |};
      add_dispatcher new_dispatcher;;
      mret new_dispatcher
  end.

End Registry.

(** ** Event tags: the context variable and its scope *)

(** What [ContextVar.set] returns: the value the variable had before, or
    nothing when it had none. *)
Record Token := {
  old_value : option Tags
}.

Definition set_active_event_tags (v : option Tags) (σ : State) : State :=
  {| root_manager := root_manager σ;
     active_event_tags := v;
     heap := heap σ;
     notifications := notifications σ;
     next_span_id := next_span_id σ |}.

(** [active_event_tags.get()]: the value of the variable, or its default
    [{}] (line 25) when it has none. *)
Definition ContextVar_get : M Tags := fun σ =>
  (Return (default ∅ (active_event_tags σ)), σ).

(** [active_event_tags.set(value)]. *)
Definition ContextVar_set (value : Tags) : M Token := fun σ =>
  (Return {| old_value := active_event_tags σ |},
   set_active_event_tags (Some value) σ).

(** [active_event_tags.reset(token)]. *)
Definition ContextVar_reset (token : Token) : M unit := fun σ =>
  (Return tt, set_active_event_tags (old_value token) σ).

(** [try: body finally: cleanup]: the cleanup runs on both exits; the
    result of the body stands unless the cleanup raises itself. *)
Definition try_finally {A} (body : M A) (cleanup : M unit) : M A := fun σ =>
  let (r, σ1) := body σ in
  match cleanup σ1 with
  | (Return _, σ2) => (r, σ2)
  | (Raise e, σ2) => (Raise e, σ2)
  end.

(** Lines 28-34, used as [with event_tags(new_tags): body].  With
    [@contextmanager] the body of the [with] statement runs at the [yield]
    and an exception of the body is thrown into the generator there. *)
Definition event_tags {A} (new_tags : Tags) (body : M A) : M A :=
  token ← ContextVar_set new_tags;
  try_finally body (ContextVar_reset token).

(** ** Methods and the span decorator *)

(** A callable found in a class dictionary: a function with its
    [__isabstractmethod__] attribute and its [DISPATCHER_SPAN_DECORATED_ATTR]
    attribute (each absent or set), or the wrapper that [Dispatcher.span]
    returns. *)
Inductive Method :=
| Function (body : list Value -> M Value)
           (isabstractmethod : option bool)
           (span_decorated : option bool)
| SpanWrapper (dispatcher : DispatcherRef) (wrapped : Method).

(** [hasattr(method, "__isabstractmethod__") and method.__isabstractmethod__];
    a wrapper shows the attributes of what it wraps. *)
Fixpoint is_abstract (method : Method) : bool :=
  match method with
  | Function _ a _ => bool_decide (a = Some true)
  | SpanWrapper _ wrapped => is_abstract wrapped
  end.

(** [hasattr(method, DISPATCHER_SPAN_DECORATED_ATTR)]. *)
Definition has_marker (method : Method) : bool :=
  match method with
  | Function _ _ mk => bool_decide (is_Some mk)
  | SpanWrapper _ _ => true
  end.

(** Modelled from the spec: [Dispatcher.span] used as a decorator lives in
    [dispatcher.py], which is not part of the sources.  An operation that
    already carries the marker is returned unchanged; any other is wrapped,
    and the wrapped method carries the marker. *)
Definition span (dispatcher : DispatcherRef) (method : Method) : Method :=
  if has_marker method then method else SpanWrapper dispatcher method.


(** Modelled from the spec: the span handlers a notification of the
    dispatcher reaches, in notification order: its own, then, while
    [propagate] is set, those of the parent found through the registry.
    The walk is bounded by [fuel]. *)
Fixpoint handler_chain (fuel : nat) (σ : State) (r : DispatcherRef)
  : list SpanHandler :=
  match fuel with
  | O => []
  | S fuel' =>
      match deref σ r with
      | None => []
      | Some d =>
          span_handlers d ++
          (if propagate d
           then match dispatchers (root_manager σ) !! parent_name d with
                | Some p => handler_chain fuel' σ p
                | None => []
                end
           else [])
      end
  end.

(** One more than the number of dispatcher objects, the root included:
    enough for any chain of distinct dispatchers. *)
Definition chain_fuel (σ : State) : nat := S (S (length (heap σ))).

Definition span_chain (σ : State) (r : DispatcherRef) : list SpanHandler :=
  handler_chain (chain_fuel σ) σ r.










(** ** Classes and the subclass hook *)

Inductive Attr :=
| NonCallable (v : Value)
| Callable (method : Method).

(** A class object: its identity, [__module__] and [__dict__].  The hook
    uses the order of a dictionary only to build lists it then tests for
    membership, so a finite map carries all it reads. *)
Record Class := {
  cls_id : nat;
  __module__ : string;
  __dict__ : gmap string Attr
}.

(** [setattr(cls, attr, value)]. *)
Definition setattr (cls : Class) (attr : string) (value : Attr) : Class :=
  {| cls_id := cls_id cls;
     __module__ := __module__ cls;
     __dict__ := <[attr := value]> (__dict__ cls) |}.

(** Lines 79-87: one item of a base class's dictionary. *)
Definition scan_item (attr : string) (method : Attr)
    (acc : list string * list string) : list string * list string :=
  match method with
  | NonCallable _ => acc
  | Callable m =>
      if is_abstract m then (acc.1 ++ [attr], acc.2)
      else if has_marker m then (acc.1, acc.2 ++ [attr])
      else acc
  end.

(** Lines 75-87: one class of the method resolution order. *)
Definition scan_base (cls : Class) (acc : list string * list string)
    (base_cls : Class) : list string * list string :=
  if decide (cls_id base_cls = cls_id cls) then acc
  else map_fold scan_item acc (__dict__ base_cls).

(** Lines 90-97: one item of the dictionary of the class itself. *)
Definition wrap_item (dispatcher : DispatcherRef)
    (abstract_methods decorated_methods : list string)
    (attr : string) (method : Attr) (cls : Class) : Class :=
  match method with
  | NonCallable _ => cls
  | Callable m =>
      if is_abstract m then cls
      else if bool_decide (attr ∈ abstract_methods)
              || bool_decide (attr ∈ decorated_methods)
           then setattr cls attr (Callable (span dispatcher m))
           else cls
  end.

Section Hook.

Variable defaults : DispatcherDefaults.

(** Lines 71-97, for a class statement without keyword arguments, where
    [super().__init_subclass__()] does nothing.  [mro] is
    [inspect.getmro(cls)]. *)
Definition __init_subclass__ (cls : Class) (mro : list Class) : M Class :=
  let '(abstract_methods, decorated_methods) :=
    foldl (scan_base cls) ([], []) mro in
  dispatcher ← get_dispatcher defaults (__module__ cls);
  mret (map_fold (wrap_item dispatcher abstract_methods decorated_methods)
          cls (__dict__ cls)).

End Hook.

(** ** What the specification says about parent resolution *)

(** The proper dotted prefixes of a name, obtained by stripping the last
    dot-delimited segment over and over while a segment is left, longest
    first: ["a.b"] and ["a"] for ["a.b.c"], none for a name without a dot. *)
Fixpoint strip_repeatedly (n : nat) (segs : list string) : list string :=
  match n with
  | O => []
  | S n' =>
      let segs' := drop_last segs in
      str_join "." segs' :: strip_repeatedly n' segs'
  end.

Definition ancestor_prefixes (name : string) : list string :=
  let segs := str_split dot name in
  strip_repeatedly (length segs - 1) segs.

(** Parent resolution as the specification words it: the first (longest)
    stripped prefix that names an existing dispatcher, and the root's name
    when there is none. *)
Definition resolve_parent_spec (ds : gmap string DispatcherRef)
    (name : string) : string :=
  match List.find (fun p => bool_decide (is_Some (ds !! p)))
                  (ancestor_prefixes name) with
  | Some p => p
  | None => root_dispatcher_name
  end.

(** ** Sequences of calls *)

Section Runs.

Variable defaults : DispatcherDefaults.

(** The state after calling [get_dispatcher] on each name in turn. *)
Definition run_calls (names : list string) (σ : State) : State :=
  foldl (fun σ name => (get_dispatcher defaults name σ).2) σ names.

End Runs.

(** Defaults for concrete runs: a dispatcher constructed without handler
    arguments has no handlers of its own, and it propagates to its parent,
    as the dispatcher ["svc"] of the specification's scenario does. *)
Definition library_defaults : DispatcherDefaults :=
  {| default_event_handlers := [];
     default_span_handlers := [];
     default_propagate := true |}.

(** The [parent_name] of the dispatcher that [get_dispatcher name] hands
    back, read from the state the call leaves. *)
Definition resolved_parent (defaults : DispatcherDefaults) (σ : State)
    (name : string) : option string :=
  match get_dispatcher defaults name σ with
  | (Return r, σ') => parent_name <$> deref σ' r
  | (Raise _, _) => None
  end.

(** ** Predicates and helpers used in the statements *)

Definition registered (σ : State) (name : string) : Prop :=
  is_Some (dispatchers (root_manager σ) !! name).

#[global] Instance registered_dec σ name : Decision (registered σ name).
Proof. unfold registered. apply _. Defined.

(** The root is registered under its name, every registered reference
    points to a dispatcher object carrying the name it is registered under,
    and the parent of every dispatcher but the root is a registered name. *)
Definition registry_ok (σ : State) : Prop :=
  dispatchers (root_manager σ) !! "root" = Some root_ref
  ∧ ∀ (n : string) r,
      dispatchers (root_manager σ) !! n = Some r →
      ∃ d, deref σ r = Some d ∧ name d = n
           ∧ (r ≠ root_ref → registered σ (parent_name d)).

(** The name is that of a callable of some class of the resolution order
    other than the class itself, which is abstract there or carries the
    marker. *)
Definition inherited_instrumented (cls : Class) (mro : list Class)
    (attr : string) : Prop :=
  ∃ base m,
    base ∈ mro ∧ cls_id base ≠ cls_id cls
    ∧ __dict__ base !! attr = Some (Callable m)
    ∧ (is_abstract m = true ∨ has_marker m = true).

Definition listed (acc : list string * list string) (attr : string) : Prop :=
  attr ∈ acc.1 ∨ attr ∈ acc.2.

(** What lines 90-97 decide for one item. *)
Definition wraps (abstract_methods decorated_methods : list string)
    (attr : string) (m : Method) : bool :=
  negb (is_abstract m)
  && (bool_decide (attr ∈ abstract_methods)
      || bool_decide (attr ∈ decorated_methods)).






(** An operation that fails, and a state with one dispatcher besides the
    root, for concrete runs. *)
Definition boom : Exn := OperationFailure (VStr "boom").

Definition failing_op : list Value -> M Value := fun _ => raise boom.

Definition answer_op : list Value -> M Value := fun _ => mret (VInt 42).

Definition svc_state : State := run_calls library_defaults ["svc"] bootstrap.


(** How many span-exit notifications of handler [h] a list holds. *)
Fixpoint exits_of (h : nat) (ns : list Notification) : nat :=
  match ns with
  | [] => 0
  | SpanExit h' _ _ :: ns' =>
      (if decide (h' = h) then 1 else 0) + exits_of h ns'
  | SpanEnter _ _ _ _ :: ns' => exits_of h ns'
  end.



(** Objects are numbered in the order of their construction, the root
    first. *)
Definition rank (r : DispatcherRef) : nat :=
  match r with
  | root_ref => 0
  | heap_ref a => S a
  end.

(** Every constructed dispatcher has a registered parent that was there
    before it. *)
Definition parents_older (σ : State) : Prop :=
  ∀ a d, heap σ !! a = Some d →
    ∃ p, dispatchers (root_manager σ) !! parent_name d = Some p
         ∧ (rank p ≤ a)%nat.

(** Every constructed dispatcher names the root as its root and has the
    manager set, as lines 48-53 construct it. *)
Definition objects_ok (σ : State) : Prop :=
  ∀ a d, heap σ !! a = Some d →
    root_name d = name root_dispatcher ∧ manager d = Some root_manager_ref.

(** One object per registered name, the root apart. *)
Definition count_ok (σ : State) : Prop :=
  size (dispatchers (root_manager σ)) = S (length (heap σ)).

(** A small class hierarchy for concrete runs: [Base] declares [run]
    abstract, [Mixin] holds a marked [log], [Impl] defines both and a
    method of its own. *)
Definition Base : Class :=
  {| cls_id := 1;
     __module__ := "pkg.base";
     __dict__ := {[ "run" := Callable (Function answer_op (Some true) None) ]} |}.

Definition Mixin : Class :=
  {| cls_id := 2;
     __module__ := "pkg.mixin";
     __dict__ := {[ "log" := Callable (Function answer_op None (Some true)) ]} |}.

Definition Impl : Class :=
  {| cls_id := 3;
     __module__ := "pkg.impl";
     __dict__ := {[ "run" := Callable (Function answer_op None None);
                    "log" := Callable (Function failing_op None None);
                    "helper" := Callable (Function answer_op None None);
                    "limit" := NonCallable (VInt 3) ]} |}.

(** A class that overrides nothing. *)
Definition Plain : Class :=
  {| cls_id := 4;
     __module__ := "pkg.plain";
     __dict__ := {[ "helper" := Callable (Function answer_op None None) ]} |}.

(** A second class of the module of [Impl]. *)
Definition Sibling : Class :=
  {| cls_id := 5;
     __module__ := "pkg.impl";
     __dict__ := {[ "run" := Callable (Function failing_op None None) ]} |}.

(** Tag mappings for concrete runs. *)
Definition outer_tags : Tags := {[ "user" := VStr "alice" ]}.

Definition inner_tags : Tags := {[ "request" := VInt 7 ]}.

(** Every constructed dispatcher is registered under its own name, and its
    parent is ["root"] or what line 42 strips its name to. *)
Definition hierarchy_ok (σ : State) : Prop :=
  ∀ a d, heap σ !! a = Some d →
    dispatchers (root_manager σ) !! name d = Some (heap_ref a)
    ∧ (parent_name d = "root" ∨ parent_name d = candidate_parent (name d)).

(** The state after the package and then its sub-module have asked for
    their dispatchers. *)
Definition nested_state : State :=
  run_calls library_defaults ["svc"; "svc.sub"] bootstrap.

(** * Properties *)

(** ** Splitting and joining *)

Lemma str_split_nonempty sep s : str_split sep s ≠ [].
Proof.
  destruct s as [|c s]; simpl; [done|].
  destruct (Ascii.eqb c sep); [done|].
  by destruct (str_split sep s).
Qed.

Lemma str_join_cons x l :
  l ≠ [] → str_join "." (x :: l) = x +:+ "." +:+ str_join "." l.
Proof. by destruct l. Qed.

Lemma str_join_split s : str_join "." (str_split dot s) = s.
Proof.
  induction s as [|c s IH]; [done|].
  cbn [str_split]. destruct (Ascii.eqb c dot) eqn:Hc.
  - apply Ascii.eqb_eq in Hc as ->.
    rewrite str_join_cons by apply str_split_nonempty.
    by rewrite IH.
  - pose proof (str_split_nonempty dot s) as Hne.
    destruct (str_split dot s) as [|seg segs]; [done|].
    destruct segs as [|seg' segs].
    + simpl in *. by rewrite IH.
    + rewrite str_join_cons by done. rewrite str_join_cons in IH by done.
      simpl. by rewrite <- IH.
Qed.

Lemma str_split_dot_free s : dot_free s = true → str_split dot s = [s].
Proof.
  induction s as [|c s IH]; [done|]. simpl.
  intros [Hc Hs]%andb_prop. apply negb_true_iff in Hc.
  rewrite Hc, IH by done. done.
Qed.

Lemma str_split_app p s :
  str_split dot (p +:+ "." +:+ s) = str_split dot p ++ str_split dot s.
Proof.
  change ("." +:+ s) with (String dot s).
  induction p as [|c p IH]; [done|].
  change (String c p +:+ String dot s) with (String c (p +:+ String dot s)).
  cbn [str_split].
  destruct (Ascii.eqb c dot).
  - by rewrite IH.
  - rewrite IH. pose proof (str_split_nonempty dot p).
    by destruct (str_split dot p).
Qed.

Lemma drop_last_snoc {A} (l : list A) x : drop_last (l ++ [x]) = l.
Proof. apply removelast_last. Qed.

Lemma candidate_parent_dotted p s :
  dot_free s = true → candidate_parent (p +:+ "." +:+ s) = p.
Proof.
  intros Hs. unfold candidate_parent.
  rewrite str_split_app, (str_split_dot_free s) by done.
  rewrite drop_last_snoc. apply str_join_split.
Qed.

Lemma candidate_parent_dot_free s :
  dot_free s = true → candidate_parent s = EmptyString.
Proof.
  intros Hs. unfold candidate_parent. by rewrite str_split_dot_free.
Qed.

Lemma string_append_assoc (a b c : string) : (a +:+ b) +:+ c = a +:+ b +:+ c.
Proof.
  induction a as [|x a IH]; [done|].
  change (String x ((a +:+ b) +:+ c) = String x (a +:+ b +:+ c)).
  by rewrite IH.
Qed.

Lemma str_join_app l1 l2 :
  l1 ≠ [] → l2 ≠ [] →
  str_join "." (l1 ++ l2) = str_join "." l1 +:+ "." +:+ str_join "." l2.
Proof.
  intros H1 H2. induction l1 as [|x l1 IH]; [done|].
  destruct l1 as [|y l1].
  - simpl app. by rewrite str_join_cons.
  - change ((x :: y :: l1) ++ l2) with (x :: ((y :: l1) ++ l2)).
    rewrite str_join_cons by done. rewrite IH by done.
    rewrite (str_join_cons x (y :: l1)) by done.
    by rewrite !string_append_assoc.
Qed.

Lemma strip_repeatedly_elem (n : nat) (segs : list string) (p : string) :
  (n ≤ length segs)%nat →
  p ∈ strip_repeatedly n segs ↔
  ∃ k : nat, (length segs - n ≤ k)%nat ∧ (k < length segs)%nat ∧
    p = str_join "." (take k segs).
Proof.
  revert segs. induction n as [|n IH]; intros segs Hn.
  - simpl. split; [by intros ?%elem_of_nil|]. intros (k & ? & ? & _). lia.
  - cbn [strip_repeatedly]. unfold drop_last.
    rewrite removelast_firstn_len.
    assert (length (take (pred (length segs)) segs) = pred (length segs)) as Hlen
      by (rewrite length_take; lia).
    rewrite elem_of_cons, IH by lia. rewrite Hlen. split.
    + intros [->|(k & Hk1 & Hk2 & ->)].
      * exists (pred (length segs)). repeat split; [lia|lia].
      * exists k. repeat split; [lia|lia|].
        rewrite take_take. f_equal. f_equal. lia.
    + intros (k & Hk1 & Hk2 & ->).
      destruct (decide (k = pred (length segs))) as [->|Hne]; [by left|].
      right. exists k. repeat split; [lia|lia|].
      rewrite take_take. f_equal. f_equal. lia.
Qed.

(** The proper dotted prefixes of a name are the [p] such that the name
    reads [p], a dot, and something more. *)
Lemma ancestor_prefixes_elem name p :
  p ∈ ancestor_prefixes name ↔ ∃ rest, name = p +:+ "." +:+ rest.
Proof.
  unfold ancestor_prefixes. rewrite strip_repeatedly_elem by lia.
  pose proof (str_split_nonempty dot name) as Hne.
  assert (0 < length (str_split dot name))%nat as Hpos
    by (destruct (str_split dot name); [done|simpl; lia]).
  split.
  - intros (k & Hk0 & Hk & ->). destruct k as [|k]; [lia|].
    exists (str_join "." (drop (S k) (str_split dot name))).
    rewrite <- str_join_app.
    + by rewrite take_drop, str_join_split.
    + destruct (str_split dot name); [done|]. done.
    + intros Hd. apply (f_equal length) in Hd. rewrite length_drop in Hd.
      simpl in Hd. lia.
  - intros [rest ->].
    exists (length (str_split dot p)). rewrite str_split_app.
    rewrite length_app, take_app_length, str_join_split.
    pose proof (str_split_nonempty dot rest).
    pose proof (str_split_nonempty dot p).
    destruct (str_split dot rest); [done|].
    destruct (str_split dot p); [done|]. simpl. repeat split; lia.
Qed.

(** A name has no dot, or reads [p.s] with [s] its last segment. *)
Lemma last_segment (n : string) :
  dot_free n = true ∨ ∃ p s, n = p +:+ "." +:+ s ∧ dot_free s = true.
Proof.
  induction n as [|c n IH]; [by left|].
  destruct IH as [Hn|(p & s & -> & Hs)].
  - simpl. destruct (Ascii.eqb c dot) eqn:Hc.
    + right. apply Ascii.eqb_eq in Hc as ->. by exists EmptyString, n.
    + by left.
  - right. by exists (String c p), s.
Qed.

(** ** The registry *)

Section RegistryFacts.

Variable defaults : DispatcherDefaults.

(** A registered name is looked up: nothing is constructed and the state
    stays as it is. *)
Lemma get_dispatcher_registered σ name r :
  dispatchers (root_manager σ) !! name = Some r →
  get_dispatcher defaults name σ = (Return r, σ).
Proof.
  intros H. unfold get_dispatcher, mbind, M_bind, get_state. by rewrite H.
Qed.

(** An unregistered name: one object is constructed and registered. *)
Lemma get_dispatcher_fresh σ (n : string) :
  dispatchers (root_manager σ) !! n = None →
  ∃ d,
    get_dispatcher defaults n σ =
      (Return (heap_ref (length (heap σ))),
       {| root_manager :=
            {| dispatchers :=
                 <[n := heap_ref (length (heap σ))]>
                   (dispatchers (root_manager σ)) |};
          active_event_tags := active_event_tags σ;
          heap := heap σ ++ [d];
          notifications := notifications σ;
          next_span_id := next_span_id σ |})
    ∧ name d = n
    ∧ parent_name d =
        (if decide (registered σ (candidate_parent n))
         then candidate_parent n else "root")
    ∧ root_name d = root_dispatcher_name
    ∧ manager d = Some root_manager_ref
    ∧ event_handlers d = default_event_handlers defaults
    ∧ span_handlers d = default_span_handlers defaults
    ∧ propagate d = default_propagate defaults.
Proof.
  intros H. eexists. split.
  - unfold get_dispatcher, mbind, M_bind, get_state. rewrite H.
    unfold alloc, add_dispatcher, read, deref, mbind, M_bind, get_state. simpl.
    rewrite list_lookup_middle by done. simpl. rewrite H.
    unfold put_state, set_root_manager, mret, M_ret. simpl. reflexivity.
  - simpl. repeat split; try done.
Qed.

(** What a call on an unregistered name leaves behind, read back through
    the store. *)
Lemma get_dispatcher_creates σ (n : string) :
  dispatchers (root_manager σ) !! n = None →
  ∃ a σ' d,
    get_dispatcher defaults n σ = (Return (heap_ref a), σ')
    ∧ deref σ' (heap_ref a) = Some d
    ∧ dispatchers (root_manager σ') !! n = Some (heap_ref a)
    ∧ heap σ' = heap σ ++ [d]
    ∧ name d = n
    ∧ parent_name d =
        (if decide (registered σ (candidate_parent n))
         then candidate_parent n else "root").
Proof.
  intros H. destruct (get_dispatcher_fresh σ n H) as (d & Hrun & Hn & Hp & _).
  eexists _, _, d. split; [exact Hrun|]. simpl.
  rewrite list_lookup_middle by done. rewrite lookup_insert_eq. done.
Qed.

(** [get_dispatcher] never raises. *)
Lemma get_dispatcher_returns σ (n : string) :
  ∃ r σ', get_dispatcher defaults n σ = (Return r, σ')
          ∧ dispatchers (root_manager σ') !! n = Some r.
Proof.
  destruct (dispatchers (root_manager σ) !! n) as [r|] eqn:E.
  - exists r, σ. by rewrite (get_dispatcher_registered σ n r).
  - destruct (get_dispatcher_creates σ n E) as (a & σ' & d & -> & _ & ? & _).
    eauto.
Qed.

End RegistryFacts.

(** ** Claims about [get_dispatcher] *)

(** C4. For every name [n] and every state, [get_dispatcher n] returns a
    reference (it never raises) and leaves that reference registered under
    [n]: the one [n] was bound to already, with the state unchanged, or a
    new object named [n] that the call constructed and registered.  A
    second call with [n] returns that same reference and leaves the state
    of the first untouched, so it constructs nothing. *)
Theorem get_dispatcher_twice_identical
    (defaults : DispatcherDefaults) (σ : State) (n : string) :
  ∃ r σ1,
    get_dispatcher defaults n σ = (Return r, σ1)
    ∧ dispatchers (root_manager σ1) !! n = Some r
    ∧ match dispatchers (root_manager σ) !! n with
      | Some r0 => r = r0 ∧ σ1 = σ
      | None =>
          r = heap_ref (length (heap σ))
          ∧ dispatchers (root_manager σ1)
            = <[n := r]> (dispatchers (root_manager σ))
          ∧ ∃ d, heap σ1 = heap σ ++ [d] ∧ deref σ1 r = Some d ∧ name d = n
      end
    ∧ get_dispatcher defaults n σ1 = (Return r, σ1).
Proof.
  destruct (get_dispatcher_returns defaults σ n) as (r & σ1 & Hrun & Hreg).
  exists r, σ1. split; [done|]. split; [done|].
  split; [|by apply get_dispatcher_registered].
  destruct (dispatchers (root_manager σ) !! n) as [r0|] eqn:E.
  - rewrite (get_dispatcher_registered defaults σ n r0 E) in Hrun.
    by injection Hrun as -> ->.
  - destruct (get_dispatcher_fresh defaults σ n E) as (d & Hrun' & Hn & _).
    rewrite Hrun' in Hrun. injection Hrun as <- <-. simpl.
    repeat split. exists d. rewrite list_lookup_middle by done. done.
Qed.

(** C1, as stated, fails: with ["a"] registered and ["a.b"] not, the
    dispatcher created for ["a.b.c"] gets parent ["root"], while the longest
    registered proper prefix of its name is ["a"]. *)
Lemma get_dispatcher_skips_distant_ancestor :
  let σ := run_calls library_defaults ["a"] bootstrap in
  dispatchers (root_manager σ) !! "a.b.c" = None
  ∧ resolve_parent_spec (dispatchers (root_manager σ)) "a.b.c" = "a"
  ∧ resolved_parent library_defaults σ "a.b.c" = Some "root"
  ∧ resolved_parent library_defaults σ "a.b.c"
    ≠ Some (resolve_parent_spec (dispatchers (root_manager σ)) "a.b.c").
Proof. vm_compute. repeat split; congruence. Qed.

(** C1, amended. For every name [n] that is not registered,
    [get_dispatcher n] constructs and registers one dispatcher named [n]
    whose [parent_name] is [n] with its last dot-delimited segment
    stripped once (the empty name when [n] has no dot) if that one prefix
    names a registered dispatcher, and ["root"] otherwise. *)
Theorem get_dispatcher_parent_immediate
    (defaults : DispatcherDefaults) (σ : State) (n : string) :
  dispatchers (root_manager σ) !! n = None →
  ∃ a σ' d,
    get_dispatcher defaults n σ = (Return (heap_ref a), σ')
    ∧ deref σ' (heap_ref a) = Some d
    ∧ dispatchers (root_manager σ') !! n = Some (heap_ref a)
    ∧ name d = n
    ∧ (∀ p s, n = p +:+ "." +:+ s → dot_free s = true →
         parent_name d = if decide (registered σ p) then p else "root")
    ∧ (dot_free n = true →
         parent_name d =
           if decide (registered σ EmptyString) then EmptyString else "root").
Proof.
  intros H.
  destruct (get_dispatcher_creates defaults σ n H)
    as (a & σ' & d & Hrun & Hd & Hreg & _ & Hn & Hp).
  exists a, σ', d. repeat split; try done.
  - intros p s -> Hs. by rewrite candidate_parent_dotted in Hp.
  - intros Hfree. by rewrite candidate_parent_dot_free in Hp.
Qed.

Lemma get_dispatcher_parent_immediate_witness :
  ∃ a σ' d,
    get_dispatcher library_defaults "a.b"
      (run_calls library_defaults ["a"] bootstrap) = (Return (heap_ref a), σ')
    ∧ deref σ' (heap_ref a) = Some d
    ∧ name d = "a.b"
    ∧ parent_name d = "a".
Proof.
  destruct (get_dispatcher_parent_immediate library_defaults
              (run_calls library_defaults ["a"] bootstrap) "a.b")
    as (a & σ' & d & Hrun & Hd & _ & Hn & Hp & _); [by vm_compute|].
  exists a, σ', d. repeat split; try done.
  rewrite (Hp "a" "b") by done. by vm_compute.
Defined.

(** C5, as stated, fails: once a dispatcher with the empty name exists, a
    name without a dot, which has no proper dotted prefix at all, gets the
    empty name as its parent and not the root's name. *)
Lemma empty_name_adopts_undotted_names :
  let σ := run_calls library_defaults [EmptyString] bootstrap in
  dispatchers (root_manager σ) !! "foo" = None
  ∧ ancestor_prefixes "foo" = []
  ∧ resolved_parent library_defaults σ "foo" = Some EmptyString
  ∧ resolved_parent library_defaults σ "foo" ≠ Some (name root_dispatcher).
Proof. vm_compute. repeat split; congruence. Qed.

(** C5, amended. For every unregistered name [n] such that no proper
    dotted prefix of [n] names a registered dispatcher and, when [n] has no
    dot, the empty name is not registered either, the dispatcher created by
    [get_dispatcher n] has the root dispatcher's name as its parent. *)
Theorem get_dispatcher_no_ancestor_root
    (defaults : DispatcherDefaults) (σ : State) (n : string) :
  dispatchers (root_manager σ) !! n = None →
  Forall (fun p => ¬ registered σ p) (ancestor_prefixes n) →
  (dot_free n = true → ¬ registered σ EmptyString) →
  ∃ a σ' d,
    get_dispatcher defaults n σ = (Return (heap_ref a), σ')
    ∧ deref σ' (heap_ref a) = Some d
    ∧ name d = n
    ∧ parent_name d = name root_dispatcher.
Proof.
  intros H Hanc Hempty.
  destruct (get_dispatcher_creates defaults σ n H)
    as (a & σ' & d & Hrun & Hd & _ & _ & Hn & Hp).
  exists a, σ', d. repeat split; try done.
  rewrite Hp. destruct (last_segment n) as [Hfree|(p & s & -> & Hs)].
  - rewrite candidate_parent_dot_free by done.
    by rewrite decide_False by auto.
  - rewrite candidate_parent_dotted by done.
    rewrite Forall_forall in Hanc.
    rewrite decide_False; [done|]. apply Hanc.
    apply ancestor_prefixes_elem. eauto.
Qed.

(** The scenario of the claim: ["svc.sub"] requested right after bootstrap,
    with ["svc"] never registered. *)
Lemma get_dispatcher_no_ancestor_root_witness :
  ∃ a σ' d,
    get_dispatcher library_defaults "svc.sub" bootstrap
      = (Return (heap_ref a), σ')
    ∧ deref σ' (heap_ref a) = Some d
    ∧ name d = "svc.sub"
    ∧ parent_name d = "root".
Proof.
  apply (get_dispatcher_no_ancestor_root library_defaults bootstrap "svc.sub").
  - by vm_compute.
  - apply (bool_decide_unpack _). by vm_compute.
  - intros Hfree. vm_compute in Hfree. discriminate.
Defined.

(** ** The registry invariant *)

Lemma registry_ok_bootstrap : registry_ok bootstrap.
Proof.
  split; [done|]. intros n r Hn. simpl in Hn.
  apply lookup_singleton_Some in Hn as [<- <-].
  exists root_dispatcher. by repeat split.
Qed.

Lemma registry_ok_step defaults σ (n : string) :
  registry_ok σ → registry_ok (get_dispatcher defaults n σ).2.
Proof.
  intros [Hroot Hall].
  destruct (dispatchers (root_manager σ) !! n) as [r|] eqn:E.
  { by rewrite (get_dispatcher_registered defaults σ n r). }
  destruct (get_dispatcher_fresh defaults σ n E) as (d & -> & Hn & Hp & _).
  split; simpl.
  - rewrite lookup_insert_ne; [done|]. intros Heq. rewrite Heq in E. congruence.
  - intros n' r' Hn'. unfold registered. simpl.
    destruct (decide (n = n')) as [<-|Hne].
    + rewrite lookup_insert_eq in Hn'. injection Hn' as <-.
      exists d. simpl. rewrite list_lookup_middle by done.
      repeat split; [done|]. intros _. rewrite Hp.
      destruct (decide (registered σ (candidate_parent n))) as [[x Hx]|_].
      * destruct (decide (n = candidate_parent n)) as [Heq|Hne'].
        -- rewrite <- Heq in Hx. congruence.
        -- rewrite lookup_insert_ne by done. by exists x.
      * rewrite lookup_insert_ne; [by eexists|]. intros Heq. rewrite Heq in E. congruence.
    + rewrite lookup_insert_ne in Hn' by done.
      destruct (Hall n' r' Hn') as (d' & Hd' & Hname & Hpar).
      exists d'. repeat split; [|done|].
      * destruct r' as [|a]; [done|]. simpl in *.
        by apply lookup_app_l_Some.
      * intros Hr. destruct (Hpar Hr) as [x Hx].
        destruct (decide (n = parent_name d')) as [Heq|?];
          [rewrite <- Heq in Hx; congruence|].
        rewrite lookup_insert_ne by done. by exists x.
Qed.

Lemma registry_ok_run defaults names σ :
  registry_ok σ → registry_ok (run_calls defaults names σ).
Proof.
  revert σ. induction names as [|n names IH]; intros σ Hok; [done|].
  simpl. apply IH. by apply registry_ok_step.
Qed.

Lemma parents_older_step defaults σ (n : string) :
  registry_ok σ → parents_older σ →
  parents_older (get_dispatcher defaults n σ).2.
Proof.
  intros [Hroot Hall] Hold.
  destruct (dispatchers (root_manager σ) !! n) as [r|] eqn:E.
  { by rewrite (get_dispatcher_registered defaults σ n r). }
  destruct (get_dispatcher_fresh defaults σ n E) as (d & -> & Hn & Hp & _).
  intros a d' Ha. simpl in *.
  assert (∀ k p, dispatchers (root_manager σ) !! k = Some p →
            <[n:=heap_ref (length (heap σ))]> (dispatchers (root_manager σ))
              !! k = Some p) as Hkeep.
  { intros k p Hk. rewrite lookup_insert_ne; [done|].
    intros Heq. rewrite Heq in E. congruence. }
  apply lookup_app_Some in Ha as [Ha|[Hlen Ha]].
  - destruct (Hold a d' Ha) as (p & Hp' & Hrank). eauto.
  - destruct (a - length (heap σ))%nat as [|k] eqn:Hk; [|done].
    injection Ha as <-. assert (a = length (heap σ)) as -> by lia.
    assert (∃ p, dispatchers (root_manager σ) !! parent_name d = Some p)
      as [p Hpar].
    { rewrite Hp. destruct (decide _) as [[p Hc]|_]; eauto. }
    exists p. split; [by apply Hkeep|].
    destruct (Hall _ p Hpar) as (dp & Hdp & _).
    destruct p as [|b]; simpl; [lia|].
    apply lookup_lt_Some in Hdp. lia.
Qed.

Lemma parents_older_run defaults names σ :
  registry_ok σ → parents_older σ →
  parents_older (run_calls defaults names σ).
Proof.
  revert σ. induction names as [|n names IH]; intros σ Hok Hold; [done|].
  simpl. apply IH; [by apply registry_ok_step|by apply parents_older_step].
Qed.

(** C7. After any sequence of [get_dispatcher] calls from the bootstrapped
    registry, every registered reference points to a dispatcher object, and
    the [parent_name] of every one but the root is a key of the registry or
    the root dispatcher's name; the root's name itself is a key.  Moreover
    the parent of every constructed dispatcher is bound to an object that
    existed before it, so following parents always ends at the root. *)
Theorem registry_parents_connected
    (defaults : DispatcherDefaults) (names : list string) :
  let σ := run_calls defaults names bootstrap in
  registered σ (name root_dispatcher)
  ∧ (∀ (n : string) r,
       dispatchers (root_manager σ) !! n = Some r →
       ∃ d, deref σ r = Some d
            ∧ (r ≠ root_ref →
               registered σ (parent_name d)
               ∨ parent_name d = name root_dispatcher))
  ∧ (∀ a d,
       heap σ !! a = Some d →
       ∃ p, dispatchers (root_manager σ) !! parent_name d = Some p
            ∧ (rank p < rank (heap_ref a))%nat).
Proof.
  intros σ.
  destruct (registry_ok_run defaults names bootstrap registry_ok_bootstrap)
    as [Hroot Hall].
  split; [by eexists|]. split.
  - intros n r Hn.
    destruct (Hall n r Hn) as (d & Hd & _ & Hpar).
    exists d. split; [done|]. intros Hr. left. by apply Hpar.
  - intros a d Ha.
    destruct (parents_older_run defaults names bootstrap
                registry_ok_bootstrap) with (a := a) (d := d)
      as (p & Hp & Hrank); [by intros ? ? ?|done|].
    exists p. split; [done|]. simpl. lia.
Qed.

(** C9. The module creates one root dispatcher, named ["root"], with
    [propagate] off and the no-op handlers, which do nothing and never
    fail; the registry built from it holds the root and nothing else, and
    no other dispatcher object exists yet.  Whatever is requested
    afterwards, ["root"] stays bound to that object, no other name is, and
    [get_dispatcher "root"] hands it back. *)
Theorem bootstrap_single_root (defaults : DispatcherDefaults) :
  name root_dispatcher = "root"
  ∧ propagate root_dispatcher = false
  ∧ event_handlers root_dispatcher = [NullEventHandler]
  ∧ span_handlers root_dispatcher = [NullSpanHandler]
  ∧ (∀ ev, handle NullEventHandler ev = None)
  ∧ (∀ id dn args, on_enter NullSpanHandler id dn args = None)
  ∧ (∀ id out, on_exit NullSpanHandler id out = None)
  ∧ dispatchers (root_manager bootstrap) = {[ "root" := root_ref ]}
  ∧ heap bootstrap = []
  ∧ ∀ names,
      let σ := run_calls defaults names bootstrap in
      get_dispatcher defaults "root" σ = (Return root_ref, σ)
      ∧ ∀ (n : string) r,
          dispatchers (root_manager σ) !! n = Some r →
          (r = root_ref ↔ n = "root").
Proof.
  repeat split; try done.
  - apply get_dispatcher_registered.
    by destruct (registry_ok_run defaults names bootstrap registry_ok_bootstrap).
  - intros ->.
    destruct (registry_ok_run defaults names bootstrap registry_ok_bootstrap)
      as [_ Hall].
    by destruct (Hall n root_ref H) as (d & [= <-] & <- & _).
  - intros ->.
    destruct (registry_ok_run defaults names bootstrap registry_ok_bootstrap)
      as [Hroot _]. congruence.
Qed.

(** ** Event tags *)

(** C3. For every tag mapping [t], every state [σ] (whose active mapping
    is the prior one) and every enclosed operation [body]: the operation
    starts in a state where reading the variable gives [t]; the scope ends
    the way the operation ended, with its result or with its failure
    unchanged; and on both exits the variable is put back to what it was
    before the scope, so reading it gives the prior mapping again. *)
Theorem event_tags_scoped {A} (t : Tags) (body : M A) (σ : State) :
  let σ_in := set_active_event_tags (Some t) σ in
  ContextVar_get σ_in = (Return t, σ_in)
  ∧ event_tags t body σ =
      ((body σ_in).1,
       set_active_event_tags (active_event_tags σ) (body σ_in).2)
  ∧ active_event_tags (event_tags t body σ).2 = active_event_tags σ
  ∧ (ContextVar_get (event_tags t body σ).2).1 = (ContextVar_get σ).1
  ∧ (∀ e σ1, body σ_in = (Raise e, σ1) →
       event_tags t body σ
       = (Raise e, set_active_event_tags (active_event_tags σ) σ1)).
Proof.
  intros σ_in.
  assert (event_tags t body σ =
          ((body σ_in).1,
           set_active_event_tags (active_event_tags σ) (body σ_in).2)) as Heq.
  { unfold event_tags, mbind, M_bind, ContextVar_set, try_finally,
      ContextVar_reset. simpl. fold σ_in. by destruct (body σ_in). }
  repeat split; try done.
  - by rewrite Heq.
  - by rewrite Heq.
  - intros e σ1 Hbody. by rewrite Heq, Hbody.
Qed.

(** ** The subclass hook *)

Lemma span_marks d m : has_marker (span d m) = true.
Proof. unfold span. by destruct (has_marker m) eqn:E. Qed.


Lemma span_unmarked d m : has_marker m = false → span d m = SpanWrapper d m.
Proof. unfold span. by intros ->. Qed.

Lemma scan_items_listed (dict : gmap string Attr) acc attr :
  listed (map_fold scan_item acc dict) attr ↔
  listed acc attr
  ∨ ∃ m, dict !! attr = Some (Callable m)
         ∧ (is_abstract m = true ∨ has_marker m = true).
Proof.
  revert dict.
  apply (map_fold_weak_ind
           (fun r (dict : gmap string Attr) =>
              listed r attr ↔
              listed acc attr
              ∨ ∃ m, dict !! attr = Some (Callable m)
                     ∧ (is_abstract m = true ∨ has_marker m = true))).
  - split; [by left|]. intros [?|(m & Hm & _)]; [done|].
    by rewrite lookup_empty in Hm.
  - intros i x dict r Hi IH.
    assert (listed (scan_item i x r) attr ↔
            listed r attr
            ∨ (attr = i ∧ ∃ m, x = Callable m
                 ∧ (is_abstract m = true ∨ has_marker m = true))) as ->.
    { unfold scan_item, listed. destruct x as [v|m]; simpl.
      - split; [by left|]. by intros [?|(_ & m & ? & _)].
      - destruct (is_abstract m) eqn:Ha; [|destruct (has_marker m) eqn:Hm];
          simpl; rewrite ?elem_of_app, ?list_elem_of_singleton.
        + split; [intros [[?| ->]|?]; eauto 10|].
          intros [[?|?]|(-> & _)]; eauto.
        + split; [intros [?|[?| ->]]; eauto 10|].
          intros [[?|?]|(-> & _)]; eauto.
        + split; [by left|].
          intros [?|(_ & m' & [= <-] & [?|?])]; [done|congruence..]. }
    rewrite IH. split.
    + intros [[?|(m & Hm & Hc)]|(-> & m & -> & Hc)]; [by left|right..].
      * exists m. split; [|done].
        rewrite lookup_insert_ne; [done|]. intros ->. congruence.
      * exists m. by rewrite lookup_insert_eq.
    + intros [?|(m & Hm & Hc)]; [by left; left|].
      destruct (decide (i = attr)) as [->|Hne].
      * rewrite lookup_insert_eq in Hm. injection Hm as ->. right. eauto.
      * rewrite lookup_insert_ne in Hm by done. left. right. eauto.
Qed.

Lemma scan_bases_listed cls mro acc attr :
  listed (foldl (scan_base cls) acc mro) attr ↔
  listed acc attr ∨ inherited_instrumented cls mro attr.
Proof.
  revert acc. induction mro as [|base mro IH]; intros acc.
  - simpl. split; [by left|]. intros [?|(b & m & Hb & _)]; [done|].
    by apply elem_of_nil in Hb.
  - simpl. rewrite IH. unfold scan_base.
    assert (inherited_instrumented cls (base :: mro) attr ↔
            (cls_id base ≠ cls_id cls
             ∧ ∃ m, __dict__ base !! attr = Some (Callable m)
                    ∧ (is_abstract m = true ∨ has_marker m = true))
            ∨ inherited_instrumented cls mro attr) as ->.
    { unfold inherited_instrumented. split.
      - intros (b & m & [->|Hb]%elem_of_cons & Hid & Hm & Hc); [left|right];
          eauto 10.
      - intros [(Hid & m & Hm & Hc)|(b & m & Hb & Hid & Hm & Hc)].
        + exists base, m. repeat split; [by left|done..].
        + exists b, m. repeat split; [by right|done..]. }
    destruct (decide (cls_id base = cls_id cls)) as [Heq|Hne].
    + split; [intros [?|?]; eauto|]. intros [?|[[? _]|?]]; eauto. done.
    + rewrite scan_items_listed. split.
      * intros [[?|?]|?]; eauto.
      * intros [?|[[_ ?]|?]]; eauto.
Qed.

(** The second loop, item by item: the class keeps its identity and its
    module, and an item is replaced exactly when [wraps] says so. *)
Lemma wrap_items_lookup d am dm (c0 : Class) (dict : gmap string Attr) :
  let c := map_fold (wrap_item d am dm) c0 dict in
  cls_id c = cls_id c0 ∧ __module__ c = __module__ c0
  ∧ ∀ attr,
      __dict__ c !! attr =
      match dict !! attr with
      | Some (Callable m) =>
          if wraps am dm attr m then Some (Callable (span d m))
          else __dict__ c0 !! attr
      | _ => __dict__ c0 !! attr
      end.
Proof.
  revert dict.
  apply (map_fold_weak_ind
    (fun c (dict : gmap string Attr) =>
       cls_id c = cls_id c0 ∧ __module__ c = __module__ c0
       ∧ ∀ attr,
           __dict__ c !! attr =
           match dict !! attr with
           | Some (Callable m) =>
               if wraps am dm attr m then Some (Callable (span d m))
               else __dict__ c0 !! attr
           | _ => __dict__ c0 !! attr
           end)).
  - repeat split.
  - intros i x dict c Hi (Hid & Hmod & IH).
    assert (cls_id (wrap_item d am dm i x c) = cls_id c
            ∧ __module__ (wrap_item d am dm i x c) = __module__ c
            ∧ __dict__ (wrap_item d am dm i x c) =
              match x with
              | Callable m =>
                  if wraps am dm i m
                  then <[i := Callable (span d m)]> (__dict__ c)
                  else __dict__ c
              | NonCallable _ => __dict__ c
              end) as (-> & -> & ->).
    { unfold wrap_item, wraps. destruct x as [v|m]; [done|].
      destruct (is_abstract m); [done|]. simpl.
      by destruct (_ || _). }
    repeat split; [done..|]. intros attr.
    destruct (decide (i = attr)) as [<-|Hne].
    + rewrite lookup_insert_eq. destruct x as [v|m].
      * by rewrite IH, Hi.
      * destruct (wraps am dm i m); [by rewrite lookup_insert_eq|].
        by rewrite IH, Hi.
    + rewrite (lookup_insert_ne dict) by done. rewrite <- IH.
      destruct x as [v|m]; [done|].
      destruct (wraps am dm i m); [|done]. by rewrite lookup_insert_ne.
Qed.

Lemma wraps_iff cls mro attr m :
  wraps (foldl (scan_base cls) ([], []) mro).1
        (foldl (scan_base cls) ([], []) mro).2 attr m = true
  ↔ is_abstract m = false ∧ inherited_instrumented cls mro attr.
Proof.
  unfold wraps. rewrite andb_true_iff, negb_true_iff, orb_true_iff.
  rewrite !bool_decide_eq_true.
  pose proof (scan_bases_listed cls mro ([], []) attr) as H.
  unfold listed in H. rewrite H. simpl.
  split; intros [? Hin]; (split; [done|]).
  - destruct Hin as [[?%elem_of_nil|?%elem_of_nil]|?]; done.
  - by right.
Qed.

Section HookFacts.

Variable defaults : DispatcherDefaults.

(** The hook as one equation: the dispatcher comes from [get_dispatcher]
    on the module name, then the second loop runs with it. *)
Lemma init_subclass_unfold cls mro σ :
  ∃ r σ',
    get_dispatcher defaults (__module__ cls) σ = (Return r, σ')
    ∧ dispatchers (root_manager σ') !! __module__ cls = Some r
    ∧ __init_subclass__ defaults cls mro σ =
        (Return (map_fold (wrap_item r
                   (foldl (scan_base cls) ([], []) mro).1
                   (foldl (scan_base cls) ([], []) mro).2)
                   cls (__dict__ cls)), σ').
Proof.
  destruct (get_dispatcher_returns defaults σ (__module__ cls))
    as (r & σ' & Hrun & Hreg).
  exists r, σ'. repeat split; [done..|].
  unfold __init_subclass__.
  destruct (foldl (scan_base cls) ([], []) mro) as [am dm].
  unfold mbind, M_bind. by rewrite Hrun.
Qed.

End HookFacts.


(** C2. The hook returns normally.  Its dispatcher is the one
    [get_dispatcher] resolves for the module name of the class.  The class
    keeps its identity and module, and for every attribute of its
    dictionary: a callable that is not abstract on the class and whose name
    some other class of the resolution order holds as an abstract or
    marked callable is replaced by the dispatcher's [span] of it, which
    carries the marker and, for a callable not marked before, is the span
    wrapper of that dispatcher around it; every other attribute, callable
    or not, is left as it was. *)
Theorem init_subclass_wraps_overrides
    (defaults : DispatcherDefaults) (cls : Class) (mro : list Class)
    (σ : State) :
  ∃ cls' r σ',
    __init_subclass__ defaults cls mro σ = (Return cls', σ')
    ∧ get_dispatcher defaults (__module__ cls) σ = (Return r, σ')
    ∧ cls_id cls' = cls_id cls
    ∧ __module__ cls' = __module__ cls
    ∧ ∀ attr,
        match __dict__ cls !! attr with
        | Some (Callable m) =>
            (is_abstract m = false ∧ inherited_instrumented cls mro attr →
               __dict__ cls' !! attr = Some (Callable (span r m))
               ∧ has_marker (span r m) = true
               ∧ (has_marker m = false → span r m = SpanWrapper r m))
            ∧ (¬ (is_abstract m = false
                  ∧ inherited_instrumented cls mro attr) →
               __dict__ cls' !! attr = Some (Callable m))
        | other => __dict__ cls' !! attr = other
        end.
Proof.
  destruct (init_subclass_unfold defaults cls mro σ)
    as (r & σ' & Hrun & _ & Hhook).
  eexists _, r, σ'. split; [exact Hhook|]. split; [exact Hrun|].
  pose proof (wrap_items_lookup r
                (foldl (scan_base cls) ([], []) mro).1
                (foldl (scan_base cls) ([], []) mro).2
                cls (__dict__ cls)) as (Hid & Hmod & Hlook).
  repeat split; [done..|]. intros attr. rewrite Hlook.
  destruct (__dict__ cls !! attr) as [[v|m]|] eqn:E; [done| |done].
  pose proof (wraps_iff cls mro attr m) as Hw.
  destruct (wraps _ _ attr m).
  - split; [|intros Hno; exfalso; apply Hno; by apply Hw].
    intros _. repeat split; [apply span_marks|apply span_unmarked].
  - split; [|done]. intros Hyes. apply Hw in Hyes. done.
Qed.

(** C10. Running the hook for a class, whatever its dictionary holds and
    whatever gets wrapped, leaves a dispatcher registered under the
    module name of the class: the one already there, with the state
    otherwise as it was, or a new object named after the module that the
    call constructed and registered. *)
Theorem init_subclass_registers_module_dispatcher
    (defaults : DispatcherDefaults) (cls : Class) (mro : list Class)
    (σ : State) :
  ∃ cls' r σ',
    __init_subclass__ defaults cls mro σ = (Return cls', σ')
    ∧ dispatchers (root_manager σ') !! __module__ cls = Some r
    ∧ match dispatchers (root_manager σ) !! __module__ cls with
      | Some r0 => r = r0 ∧ σ' = σ
      | None =>
          r = heap_ref (length (heap σ))
          ∧ dispatchers (root_manager σ')
            = <[__module__ cls := r]> (dispatchers (root_manager σ))
          ∧ ∃ d, heap σ' = heap σ ++ [d] ∧ deref σ' r = Some d
                 ∧ name d = __module__ cls
      end.
Proof.
  destruct (init_subclass_unfold defaults cls mro σ)
    as (r & σ' & Hrun & Hreg & Hhook).
  eexists _, r, σ'. split; [exact Hhook|]. split; [exact Hreg|].
  destruct (dispatchers (root_manager σ) !! __module__ cls) as [r0|] eqn:E.
  - rewrite (get_dispatcher_registered defaults σ _ r0 E) in Hrun.
    by injection Hrun as -> ->.
  - destruct (get_dispatcher_fresh defaults σ _ E) as (d & Hrun' & Hn & _).
    rewrite Hrun' in Hrun. injection Hrun as <- <-. simpl.
    repeat split. exists d. rewrite list_lookup_middle by done. done.
Qed.

(** ** Spans *)












Lemma handler_chain_enough σ (fuel1 fuel2 : nat) r :
  parents_older σ →
  (rank r < fuel1)%nat → (rank r < fuel2)%nat →
  handler_chain fuel1 σ r = handler_chain fuel2 σ r.
Proof.
  intros Hold. revert fuel2 r.
  induction fuel1 as [|fuel1 IH]; intros fuel2 r H1 H2; [lia|].
  destruct fuel2 as [|fuel2]; [lia|]. simpl.
  destruct (deref σ r) as [d|] eqn:Hd; [|done]. f_equal.
  destruct r as [|a]; simpl in Hd.
  { by injection Hd as <-. }
  destruct (propagate d); [|done].
  destruct (Hold a d Hd) as (p & -> & Hrank).
  simpl in H1, H2. apply IH; lia.
Qed.



(** *** Counting notifications *)


Lemma exits_of_app h l1 l2 :
  exits_of h (l1 ++ l2) = (exits_of h l1 + exits_of h l2)%nat.
Proof.
  induction l1 as [|[h' ? ? ?|h' ? ?] l1 IH]; simpl; [done|done|].
  rewrite IH. lia.
Qed.










(** ** The bounded walk up the parents is long enough *)

(** In every state reached from bootstrap the walk of [span_chain] never
    runs out of fuel: more fuel gives the same chain. *)
Lemma span_chain_fuel_enough defaults names r (fuel : nat) :
  let σ := run_calls defaults names bootstrap in
  (chain_fuel σ ≤ fuel)%nat → handler_chain fuel σ r = span_chain σ r.
Proof.
  intros σ Hfuel. unfold span_chain.
  assert (parents_older σ) as Hold.
  { apply parents_older_run; [apply registry_ok_bootstrap|].
    intros a d Ha. done. }
  destruct (decide (rank r < chain_fuel σ)%nat) as [Hlt|Hge].
  - apply handler_chain_enough; [done|lia|done].
  - destruct r as [|a]; [unfold chain_fuel in Hge; simpl in Hge; lia|].
    unfold chain_fuel in *. simpl in Hge.
    destruct fuel as [|fuel]; [lia|]. simpl.
    rewrite (lookup_ge_None_2 (heap σ) a) by lia. done.
Qed.

(** * Further properties of the module *)

(** ** What [get_dispatcher] leaves alone *)

Lemma run_calls_cons defaults (n : string) names σ :
  run_calls defaults (n :: names) σ
  = run_calls defaults names (get_dispatcher defaults n σ).2.
Proof. done. Qed.

Lemma run_calls_snoc defaults (n : string) names σ :
  run_calls defaults (names ++ [n]) σ
  = (get_dispatcher defaults n (run_calls defaults names σ)).2.
Proof. unfold run_calls. by rewrite foldl_app. Qed.

(** One call keeps every binding and every object, adds at most the
    requested name and one object, and touches neither the event tags nor
    the record of notifications. *)
Lemma get_dispatcher_preserves defaults σ (n : string) :
  let σ' := (get_dispatcher defaults n σ).2 in
  (∀ (k : string) r, dispatchers (root_manager σ) !! k = Some r →
     dispatchers (root_manager σ') !! k = Some r)
  ∧ (∀ k : string, k ≠ n →
       dispatchers (root_manager σ') !! k = dispatchers (root_manager σ) !! k)
  ∧ (∀ r d, deref σ r = Some d → deref σ' r = Some d)
  ∧ (length (heap σ') ≤ S (length (heap σ)))%nat
  ∧ active_event_tags σ' = active_event_tags σ
  ∧ notifications σ' = notifications σ
  ∧ next_span_id σ' = next_span_id σ.
Proof.
  destruct (dispatchers (root_manager σ) !! n) as [r0|] eqn:E.
  { rewrite (get_dispatcher_registered defaults σ n r0 E). simpl.
    repeat split; auto. }
  destruct (get_dispatcher_fresh defaults σ n E) as (d0 & -> & _).
  simpl. repeat split; try done.
  - intros k r Hk. rewrite lookup_insert_ne; [done|].
    intros Heq. rewrite Heq in E. congruence.
  - intros k Hk. by rewrite lookup_insert_ne.
  - intros [|a] d Hd; simpl in *; [done|]. by apply lookup_app_l_Some.
  - rewrite length_app. simpl. lia.
Qed.

Lemma run_calls_preserves defaults names σ :
  let σ' := run_calls defaults names σ in
  (∀ (k : string) r, dispatchers (root_manager σ) !! k = Some r →
     dispatchers (root_manager σ') !! k = Some r)
  ∧ (∀ r d, deref σ r = Some d → deref σ' r = Some d).
Proof.
  revert σ. induction names as [|n names IH]; intros σ; [done|].
  rewrite run_calls_cons.
  destruct (get_dispatcher_preserves defaults σ n) as (Hk & _ & Hd & _).
  destruct (IH (get_dispatcher defaults n σ).2) as [Hk' Hd'].
  split; eauto.
Qed.

(** X2. A call of [get_dispatcher], on any name and in any state, keeps
    every existing registration bound to the same object and every
    existing dispatcher object as it is; it changes no registry entry but
    the requested one, constructs at most one object, and leaves the
    active event tags and the record of handler notifications untouched. *)
Theorem get_dispatcher_frame
    (defaults : DispatcherDefaults) (σ : State) (n : string) :
  let σ' := (get_dispatcher defaults n σ).2 in
  (∀ (k : string) r, dispatchers (root_manager σ) !! k = Some r →
     dispatchers (root_manager σ') !! k = Some r)
  ∧ (∀ k : string, k ≠ n →
       dispatchers (root_manager σ') !! k = dispatchers (root_manager σ) !! k)
  ∧ (∀ r d, deref σ r = Some d → deref σ' r = Some d)
  ∧ (length (heap σ') ≤ S (length (heap σ)))%nat
  ∧ active_event_tags σ' = active_event_tags σ
  ∧ notifications σ' = notifications σ.
Proof.
  intros σ'.
  destruct (get_dispatcher_preserves defaults σ n)
    as (H1 & H2 & H3 & H4 & H5 & H6 & _).
  by repeat split.
Qed.

(** ** Invariants of the constructed objects *)

Lemma objects_ok_step defaults σ (n : string) :
  objects_ok σ → objects_ok (get_dispatcher defaults n σ).2.
Proof.
  intros Hok.
  destruct (dispatchers (root_manager σ) !! n) as [r|] eqn:E.
  { by rewrite (get_dispatcher_registered defaults σ n r). }
  destruct (get_dispatcher_fresh defaults σ n E)
    as (d & -> & _ & _ & Hroot & Hman & _).
  intros a d' Ha. simpl in Ha.
  apply lookup_app_Some in Ha as [Ha|[Hlen Ha]]; [by apply (Hok a)|].
  destruct (a - length (heap σ))%nat; [|done].
  injection Ha as <-. done.
Qed.

Lemma objects_ok_run defaults names σ :
  objects_ok σ → objects_ok (run_calls defaults names σ).
Proof.
  revert σ. induction names as [|n names IH]; intros σ Hok; [done|].
  rewrite run_calls_cons. apply IH. by apply objects_ok_step.
Qed.

(** X1. After any sequence of requests, [get_dispatcher n] returns an
    object that carries the name [n]; when it is not the root object, its
    [root_name] is the root dispatcher's name and its manager is the
    module's manager. *)
Theorem get_dispatcher_named
    (defaults : DispatcherDefaults) (names : list string) (n : string) :
  let σ := run_calls defaults names bootstrap in
  ∃ r σ' d,
    get_dispatcher defaults n σ = (Return r, σ')
    ∧ deref σ' r = Some d
    ∧ name d = n
    ∧ (r ≠ root_ref →
       root_name d = name root_dispatcher
       ∧ manager d = Some root_manager_ref).
Proof.
  intros σ.
  destruct (get_dispatcher_returns defaults σ n) as (r & σ' & Hrun & Hreg).
  assert (σ' = run_calls defaults (names ++ [n]) bootstrap) as Hσ'.
  { rewrite run_calls_snoc. fold σ. by rewrite Hrun. }
  destruct (registry_ok_run defaults (names ++ [n]) bootstrap
              registry_ok_bootstrap) as [_ Hall].
  rewrite <- Hσ' in Hall.
  destruct (Hall n r Hreg) as (d & Hd & Hname & _).
  exists r, σ', d. repeat split; try done.
  - destruct r as [|a]; [done|]. simpl in Hd.
    assert (objects_ok σ') as Hobj.
    { rewrite Hσ'. apply objects_ok_run. by intros ? ? ?. }
    by destruct (Hobj a d Hd).
  - destruct r as [|a]; [done|]. simpl in Hd.
    assert (objects_ok σ') as Hobj.
    { rewrite Hσ'. apply objects_ok_run. by intros ? ? ?. }
    by destruct (Hobj a d Hd).
Qed.

(** ** The registry after a sequence of requests *)

Lemma get_dispatcher_dom defaults σ (n : string) :
  dom (dispatchers (root_manager (get_dispatcher defaults n σ).2))
  = {[ n ]} ∪ dom (dispatchers (root_manager σ)).
Proof.
  destruct (dispatchers (root_manager σ) !! n) as [r|] eqn:E.
  - rewrite (get_dispatcher_registered defaults σ n r E). simpl.
    symmetry. apply subseteq_union_1_L, singleton_subseteq_l.
    apply elem_of_dom. eauto.
  - destruct (get_dispatcher_fresh defaults σ n E) as (d & -> & _).
    simpl. by rewrite dom_insert_L.
Qed.

Lemma run_calls_dom defaults names σ :
  dom (dispatchers (root_manager (run_calls defaults names σ)))
  = list_to_set names ∪ dom (dispatchers (root_manager σ)).
Proof.
  revert σ. induction names as [|n names IH]; intros σ.
  - simpl. by rewrite (left_id_L ∅ (∪)).
  - rewrite run_calls_cons, IH, get_dispatcher_dom. simpl.
    by rewrite (assoc_L (∪)), (comm_L (∪) (list_to_set names)).
Qed.

Lemma count_ok_step defaults σ (n : string) :
  count_ok σ → count_ok (get_dispatcher defaults n σ).2.
Proof.
  unfold count_ok. intros Hc.
  destruct (dispatchers (root_manager σ) !! n) as [r|] eqn:E.
  { by rewrite (get_dispatcher_registered defaults σ n r). }
  destruct (get_dispatcher_fresh defaults σ n E) as (d & -> & _).
  simpl. rewrite map_size_insert_None by done.
  rewrite length_app. simpl. lia.
Qed.

Lemma count_ok_run defaults names σ :
  count_ok σ → count_ok (run_calls defaults names σ).
Proof.
  revert σ. induction names as [|n names IH]; intros σ Hok; [done|].
  rewrite run_calls_cons. apply IH. by apply count_ok_step.
Qed.

(** X3. After any sequence of requests from the bootstrapped state the
    registry holds exactly ["root"] and the requested names; there is one
    constructed object per name besides the root; and two different names
    are never bound to the same object. *)
Theorem registry_holds_requested_names
    (defaults : DispatcherDefaults) (names : list string) :
  let σ := run_calls defaults names bootstrap in
  dom (dispatchers (root_manager σ)) = {[ "root" ]} ∪ list_to_set names
  ∧ size (dispatchers (root_manager σ)) = S (length (heap σ))
  ∧ ∀ (k1 k2 : string) r,
      dispatchers (root_manager σ) !! k1 = Some r →
      dispatchers (root_manager σ) !! k2 = Some r →
      k1 = k2.
Proof.
  intros σ. repeat split.
  - unfold σ. rewrite run_calls_dom. simpl. rewrite dom_singleton_L.
    apply (comm_L (∪)).
  - apply count_ok_run. unfold count_ok. simpl. by rewrite map_size_singleton.
  - intros k1 k2 r H1 H2.
    destruct (registry_ok_run defaults names bootstrap registry_ok_bootstrap)
      as [_ Hall].
    destruct (Hall k1 r H1) as (d1 & Hd1 & <- & _).
    destruct (Hall k2 r H2) as (d2 & Hd2 & <- & _).
    congruence.
Qed.

(** X11. The object [get_dispatcher n] has returned once is the object
    every later [get_dispatcher n] returns, whatever other names are
    requested in between, and such a later call changes nothing. *)
Theorem get_dispatcher_stable
    (defaults : DispatcherDefaults) (σ σ1 : State) (n : string)
    (r : DispatcherRef) (names : list string) :
  get_dispatcher defaults n σ = (Return r, σ1) →
  get_dispatcher defaults n (run_calls defaults names σ1)
  = (Return r, run_calls defaults names σ1).
Proof.
  intros Hrun. apply get_dispatcher_registered.
  apply (run_calls_preserves defaults names σ1).
  destruct (get_dispatcher_returns defaults σ n) as (r' & σ' & Hrun' & Hreg).
  congruence.
Qed.

Lemma get_dispatcher_stable_witness :
  get_dispatcher library_defaults "svc"
    (run_calls library_defaults ["other"; "svc.sub"; "svc"] svc_state)
  = (Return (heap_ref 0),
     run_calls library_defaults ["other"; "svc.sub"; "svc"] svc_state).
Proof.
  apply (get_dispatcher_stable library_defaults bootstrap svc_state).
  by vm_compute.
Defined.

(** ** The order of requests decides the parents *)

Lemma dotted_name_longer (p s : string) : p ≠ p +:+ "." +:+ s.
Proof.
  induction p as [|c p IH]; [done|].
  change (String c p +:+ "." +:+ s) with (String c (p +:+ "." +:+ s)).
  intros [= Heq]. by apply IH.
Qed.

(** X4. A dispatcher created before its prefix stays a child of the root:
    when neither [p.s] nor [p] is registered, requesting [p.s] and then [p]
    leaves [p.s] with parent ["root"], although [p] is registered by
    then. *)
Theorem late_parent_not_adopted
    (defaults : DispatcherDefaults) (σ : State) (p s : string) :
  dot_free s = true →
  dispatchers (root_manager σ) !! (p +:+ "." +:+ s) = None →
  dispatchers (root_manager σ) !! p = None →
  let σ2 := run_calls defaults [p +:+ "." +:+ s; p] σ in
  registered σ2 p
  ∧ ∃ r d,
      dispatchers (root_manager σ2) !! (p +:+ "." +:+ s) = Some r
      ∧ deref σ2 r = Some d
      ∧ parent_name d = "root".
Proof.
  intros Hs Hchild Hparent σ2. unfold σ2. simpl.
  destruct (get_dispatcher_creates defaults σ _ Hchild)
    as (a & σ1 & d & Hrun & Hd & Hreg & _ & _ & Hp).
  rewrite Hrun. simpl.
  rewrite candidate_parent_dotted in Hp by done.
  rewrite decide_False in Hp by (intros [x Hx]; congruence).
  destruct (get_dispatcher_preserves defaults σ1 p) as (Hk & _ & Hderef & _).
  split.
  - destruct (get_dispatcher_returns defaults σ1 p) as (r' & σ' & -> & Hr').
    by eexists.
  - exists (heap_ref a), d. repeat split; [by apply Hk|by apply Hderef|done].
Qed.

Lemma late_parent_not_adopted_witness :
  let σ2 := run_calls library_defaults ["svc.sub"; "svc"] bootstrap in
  registered σ2 "svc"
  ∧ ∃ r d,
      dispatchers (root_manager σ2) !! "svc.sub" = Some r
      ∧ deref σ2 r = Some d
      ∧ parent_name d = "root".
Proof.
  apply (late_parent_not_adopted library_defaults bootstrap "svc" "sub");
    by vm_compute.
Defined.

(** X5. A dispatcher created after its prefix becomes its child: when
    [p.s] is not registered, requesting [p] and then [p.s] gives [p.s] the
    parent [p], whether [p] was registered before or not. *)
Theorem early_parent_adopts
    (defaults : DispatcherDefaults) (σ : State) (p s : string) :
  dot_free s = true →
  dispatchers (root_manager σ) !! (p +:+ "." +:+ s) = None →
  let σ2 := run_calls defaults [p; p +:+ "." +:+ s] σ in
  ∃ r d,
    dispatchers (root_manager σ2) !! (p +:+ "." +:+ s) = Some r
    ∧ deref σ2 r = Some d
    ∧ parent_name d = p
    ∧ registered σ2 p.
Proof.
  intros Hs Hchild σ2. unfold σ2. simpl.
  destruct (get_dispatcher_returns defaults σ p) as (rp & σ1 & Hrun1 & Hp1).
  destruct (get_dispatcher_preserves defaults σ p) as (_ & Hne & _).
  rewrite Hrun1 in *. simpl in *.
  assert (dispatchers (root_manager σ1) !! (p +:+ "." +:+ s) = None) as Hc1.
  { rewrite Hne; [done|]. intros Heq. by apply (dotted_name_longer p s). }
  destruct (get_dispatcher_creates defaults σ1 _ Hc1)
    as (a & σ' & d & Hrun & Hd & Hreg & _ & _ & Hp).
  rewrite Hrun. simpl.
  rewrite candidate_parent_dotted in Hp by done.
  rewrite decide_True in Hp by (by eexists).
  exists (heap_ref a), d. repeat split; try done.
  destruct (get_dispatcher_preserves defaults σ1 (p +:+ "." +:+ s))
    as (Hk & _).
  rewrite Hrun in Hk. simpl in Hk. eexists. by apply Hk.
Qed.

Lemma early_parent_adopts_witness :
  let σ2 := run_calls library_defaults ["svc"; "svc.sub"] bootstrap in
  ∃ r d,
    dispatchers (root_manager σ2) !! "svc.sub" = Some r
    ∧ deref σ2 r = Some d
    ∧ parent_name d = "svc"
    ∧ registered σ2 "svc".
Proof.
  apply (early_parent_adopts library_defaults bootstrap "svc" "sub");
    by vm_compute.
Defined.

(** ** Scopes of event tags *)

Lemma event_tags_run {A} (t : Tags) (body : M A) (σ : State) :
  event_tags t body σ
  = ((body (set_active_event_tags (Some t) σ)).1,
     set_active_event_tags (active_event_tags σ)
       (body (set_active_event_tags (Some t) σ)).2).
Proof.
  unfold event_tags, mbind, M_bind, ContextVar_set, try_finally,
    ContextVar_reset. simpl.
  by destruct (body (set_active_event_tags (Some t) σ)).
Qed.

Lemma set_active_event_tags_id σ :
  set_active_event_tags (active_event_tags σ) σ = σ.
Proof. by destruct σ. Qed.

(** X6. Tag scopes do not merge: a scope opened directly inside another
    one behaves exactly like the inner scope alone, so inside it only the
    inner mapping is active, and when it ends the mapping from before the
    outer scope is back. *)
Theorem event_tags_nested_replaces
    {A} (t1 t2 : Tags) (body : M A) (σ : State) :
  event_tags t1 (event_tags t2 body) σ = event_tags t2 body σ.
Proof. by rewrite !event_tags_run. Qed.

(** X7. Tag scopes stack: when a scope nested in the body of another one
    ends normally, the rest of the outer body runs with the outer mapping
    active again, and reading the variable there gives the outer mapping. *)
Theorem event_tags_outer_restored
    {A} (t1 t2 : Tags) (body : M A) (σ σ3 : State) (v : A) :
  body (set_active_event_tags (Some t2) σ) = (Return v, σ3) →
  event_tags t1 (event_tags t2 body;; ContextVar_get) σ
  = (Return t1, set_active_event_tags (active_event_tags σ) σ3).
Proof.
  intros Hbody. rewrite event_tags_run. unfold mbind, M_bind.
  rewrite event_tags_run. simpl.
  change (set_active_event_tags (Some t2)
            (set_active_event_tags (Some t1) σ))
    with (set_active_event_tags (Some t2) σ).
  by rewrite Hbody.
Qed.

Lemma event_tags_outer_restored_witness :
  event_tags outer_tags (event_tags inner_tags ContextVar_get;; ContextVar_get)
    bootstrap
  = (Return outer_tags, bootstrap).
Proof.
  apply (event_tags_outer_restored outer_tags inner_tags ContextVar_get
           bootstrap (set_active_event_tags (Some inner_tags) bootstrap)
           inner_tags).
  reflexivity.
Defined.

(** [get_dispatcher] does not read the event tags. *)
Lemma get_dispatcher_ignores_tags defaults (n : string) v σ :
  get_dispatcher defaults n (set_active_event_tags v σ)
  = ((get_dispatcher defaults n σ).1,
     set_active_event_tags v (get_dispatcher defaults n σ).2).
Proof.
  unfold get_dispatcher, mbind, M_bind, get_state. simpl.
  destruct (dispatchers (root_manager σ) !! n) as [r|] eqn:E; [done|].
  unfold alloc, add_dispatcher, read, deref, mbind, M_bind, get_state. simpl.
  rewrite list_lookup_middle by done. simpl. rewrite E. done.
Qed.

(** X8. A tag scope restores the tags and nothing else: a dispatcher
    requested inside a scope is resolved, constructed and registered
    exactly as outside of it, and stays registered when the scope ends. *)
Theorem get_dispatcher_in_tag_scope
    (defaults : DispatcherDefaults) (t : Tags) (n : string) (σ : State) :
  event_tags t (get_dispatcher defaults n) σ = get_dispatcher defaults n σ.
Proof.
  rewrite event_tags_run, get_dispatcher_ignores_tags. simpl.
  destruct (get_dispatcher_preserves defaults σ n) as (_ & _ & _ & _ & Ht & _).
  destruct (get_dispatcher defaults n σ) as [r σ']. simpl in *.
  f_equal. rewrite <- Ht. by destruct σ'.
Qed.

(** ** More on the subclass hook *)

Lemma Class_eq (c1 c2 : Class) :
  cls_id c1 = cls_id c2 → __module__ c1 = __module__ c2 →
  (∀ attr, __dict__ c1 !! attr = __dict__ c2 !! attr) →
  c1 = c2.
Proof.
  destruct c1, c2. simpl. intros -> -> Hd. f_equal. by apply map_eq.
Qed.

(** The names the hook wraps depend on the classes of the resolution order
    only as a set. *)
Lemma inherited_instrumented_ext cls mro mro' attr :
  (∀ base, base ∈ mro ↔ base ∈ mro') →
  inherited_instrumented cls mro attr ↔ inherited_instrumented cls mro' attr.
Proof.
  intros Hset. unfold inherited_instrumented.
  split; intros (b & m & Hb & Hrest); exists b, m;
    (split; [by apply Hset|done]).
Qed.

(** X9. All classes of one module share one dispatcher: the hook of a
    second class of the module resolves the dispatcher the first one left
    registered, constructs nothing and leaves the state as it was, and
    every method either hook wraps is wrapped by that one dispatcher. *)
Theorem classes_of_one_module_share_dispatcher
    (defaults : DispatcherDefaults) (cls1 cls2 : Class)
    (mro1 mro2 : list Class) (σ : State) :
  __module__ cls1 = __module__ cls2 →
  ∃ c1 c2 r σ1,
    __init_subclass__ defaults cls1 mro1 σ = (Return c1, σ1)
    ∧ __init_subclass__ defaults cls2 mro2 σ1 = (Return c2, σ1)
    ∧ dispatchers (root_manager σ1) !! __module__ cls1 = Some r
    ∧ (∀ attr m,
         __dict__ cls1 !! attr = Some (Callable m) →
         __dict__ c1 !! attr = Some (Callable m)
         ∨ __dict__ c1 !! attr = Some (Callable (span r m)))
    ∧ (∀ attr m,
         __dict__ cls2 !! attr = Some (Callable m) →
         __dict__ c2 !! attr = Some (Callable m)
         ∨ __dict__ c2 !! attr = Some (Callable (span r m))).
Proof.
  intros Hmod.
  destruct (init_subclass_unfold defaults cls1 mro1 σ)
    as (r & σ1 & Hrun1 & Hreg1 & Hhook1).
  destruct (init_subclass_unfold defaults cls2 mro2 σ1)
    as (r2 & σ2 & Hrun2 & _ & Hhook2).
  rewrite <- Hmod in Hrun2.
  rewrite (get_dispatcher_registered defaults σ1 _ r Hreg1) in Hrun2.
  injection Hrun2 as <- <-.
  eexists _, _, r, σ1.
  split; [exact Hhook1|]. split; [exact Hhook2|]. split; [done|].
  split; intros attr m Hattr.
  - destruct (wrap_items_lookup r
                (foldl (scan_base cls1) ([], []) mro1).1
                (foldl (scan_base cls1) ([], []) mro1).2
                cls1 (__dict__ cls1)) as (_ & _ & Hlook).
    rewrite Hlook, Hattr. destruct (wraps _ _ attr m); auto.
  - destruct (wrap_items_lookup r
                (foldl (scan_base cls2) ([], []) mro2).1
                (foldl (scan_base cls2) ([], []) mro2).2
                cls2 (__dict__ cls2)) as (_ & _ & Hlook).
    rewrite Hlook, Hattr. destruct (wraps _ _ attr m); auto.
Qed.

Lemma classes_of_one_module_share_dispatcher_witness :
  ∃ c1 c2 r σ1,
    __init_subclass__ library_defaults Impl [Impl; Base; Mixin] bootstrap
      = (Return c1, σ1)
    ∧ __init_subclass__ library_defaults Sibling [Sibling; Base] σ1
      = (Return c2, σ1)
    ∧ dispatchers (root_manager σ1) !! __module__ Impl = Some r.
Proof.
  destruct (classes_of_one_module_share_dispatcher library_defaults
              Impl Sibling [Impl; Base; Mixin] [Sibling; Base] bootstrap)
    as (c1 & c2 & r & σ1 & H1 & H2 & H3 & _); [reflexivity|].
  exists c1, c2, r, σ1. split; [exact H1|]. split; [exact H2|exact H3].
Defined.

(** X10. A class none of whose own attribute names is held as an abstract
    or marked callable by another class of its resolution order comes out
    of the hook exactly as it went in, whatever else those classes hold;
    the module dispatcher is resolved all the same. *)
Theorem init_subclass_leaves_plain_class
    (defaults : DispatcherDefaults) (cls : Class) (mro : list Class)
    (σ : State) :
  (∀ attr v, __dict__ cls !! attr = Some v →
     ¬ inherited_instrumented cls mro attr) →
  ∃ r σ',
    __init_subclass__ defaults cls mro σ = (Return cls, σ')
    ∧ get_dispatcher defaults (__module__ cls) σ = (Return r, σ').
Proof.
  intros Hnone.
  destruct (init_subclass_unfold defaults cls mro σ)
    as (r & σ' & Hrun & _ & Hhook).
  exists r, σ'. split; [|done]. rewrite Hhook. f_equal. f_equal.
  destruct (wrap_items_lookup r
              (foldl (scan_base cls) ([], []) mro).1
              (foldl (scan_base cls) ([], []) mro).2
              cls (__dict__ cls)) as (Hid & Hmod & Hlook).
  apply Class_eq; [done..|]. intros attr. rewrite Hlook.
  destruct (__dict__ cls !! attr) as [[v|m]|] eqn:E; [done| |done].
  pose proof (wraps_iff cls mro attr m) as Hw.
  destruct (wraps _ _ attr m); [|done].
  exfalso. apply (Hnone attr (Callable m) E). by apply Hw.
Qed.

(** [Plain] defines only [helper]; its bases hold an abstract [run] and a
    marked [log]. *)
Lemma init_subclass_leaves_plain_class_witness :
  ∃ r σ',
    __init_subclass__ library_defaults Plain [Plain; Base; Mixin] bootstrap
      = (Return Plain, σ')
    ∧ get_dispatcher library_defaults (__module__ Plain) bootstrap
      = (Return r, σ').
Proof.
  apply (init_subclass_leaves_plain_class library_defaults Plain
           [Plain; Base; Mixin]).
  intros attr v Hattr (b & m & Hb & Hid & Hlook & _).
  unfold Plain in Hattr. cbn [__dict__] in Hattr.
  apply lookup_singleton_Some in Hattr as [<- _].
  rewrite !elem_of_cons, elem_of_nil in Hb.
  destruct Hb as [->|[->|[->|[]]]]; [by apply Hid|..];
    cbn [__dict__ Base Mixin] in Hlook;
    apply lookup_singleton_Some in Hlook as [Hk _]; discriminate Hk.
Defined.

(** X12. The order of the classes in the resolution order does not
    matter to the hook, and neither do repetitions: two lists holding the
    same classes give the same class, the same dispatcher and the same
    state. *)
Theorem init_subclass_mro_order_irrelevant
    (defaults : DispatcherDefaults) (cls : Class) (mro mro' : list Class)
    (σ : State) :
  (∀ base, base ∈ mro ↔ base ∈ mro') →
  __init_subclass__ defaults cls mro σ = __init_subclass__ defaults cls mro' σ.
Proof.
  intros Hset.
  destruct (init_subclass_unfold defaults cls mro σ)
    as (r & σ1 & Hrun & _ & ->).
  destruct (init_subclass_unfold defaults cls mro' σ)
    as (r' & σ1' & Hrun' & _ & ->).
  rewrite Hrun in Hrun'. injection Hrun' as <- <-.
  f_equal. f_equal.
  destruct (wrap_items_lookup r
              (foldl (scan_base cls) ([], []) mro).1
              (foldl (scan_base cls) ([], []) mro).2
              cls (__dict__ cls)) as (Hid & Hmod & Hlook).
  destruct (wrap_items_lookup r
              (foldl (scan_base cls) ([], []) mro').1
              (foldl (scan_base cls) ([], []) mro').2
              cls (__dict__ cls)) as (Hid' & Hmod' & Hlook').
  apply Class_eq; [congruence..|]. intros attr. rewrite Hlook, Hlook'.
  destruct (__dict__ cls !! attr) as [[v|m]|]; [done| |done].
  pose proof (wraps_iff cls mro attr m) as Hw.
  pose proof (wraps_iff cls mro' attr m) as Hw'.
  pose proof (inherited_instrumented_ext cls mro mro' attr Hset) as Hext.
  destruct (wraps _ _ attr m), (wraps _ _ attr m); try done.
  - assert (false = true) by (apply Hw'; split; [apply Hw|apply Hext, Hw]; done).
    done.
  - assert (false = true) by (apply Hw; split; [apply Hw'|apply Hext, Hw']; done).
    done.
Qed.

Lemma init_subclass_mro_order_irrelevant_witness :
  __init_subclass__ library_defaults Impl [Impl; Base; Mixin] bootstrap
  = __init_subclass__ library_defaults Impl [Mixin; Impl; Base; Mixin]
      bootstrap.
Proof.
  apply init_subclass_mro_order_irrelevant.
  intros base. rewrite !elem_of_cons, !elem_of_nil. tauto.
Defined.

(** ** The tree follows the dotted names *)

Lemma hierarchy_ok_step defaults σ (n : string) :
  hierarchy_ok σ → hierarchy_ok (get_dispatcher defaults n σ).2.
Proof.
  intros Hok.
  destruct (dispatchers (root_manager σ) !! n) as [r|] eqn:E.
  { by rewrite (get_dispatcher_registered defaults σ n r). }
  destruct (get_dispatcher_fresh defaults σ n E) as (d & -> & Hn & Hp & _).
  intros a d' Ha. simpl in *.
  apply lookup_app_Some in Ha as [Ha|[Hlen Ha]].
  - destruct (Hok a d' Ha) as [Hreg Hpar]. split; [|done].
    rewrite lookup_insert_ne; [done|]. intros Heq. rewrite Heq in E. congruence.
  - destruct (a - length (heap σ))%nat as [|k] eqn:Hk; [|done].
    injection Ha as <-. assert (a = length (heap σ)) as -> by lia.
    rewrite Hn, lookup_insert_eq. split; [done|].
    rewrite Hp. destruct (decide _); auto.
Qed.

Lemma hierarchy_ok_run defaults names σ :
  hierarchy_ok σ → hierarchy_ok (run_calls defaults names σ).
Proof.
  revert σ. induction names as [|n names IH]; intros σ Hok; [done|].
  rewrite run_calls_cons. apply IH. by apply hierarchy_ok_step.
Qed.

(** X13. After any sequence of requests, the parent of every constructed
    dispatcher is ["root"], or the dispatcher's name reads as its parent's
    name, a dot and one last segment without a dot, or the name has no dot
    and the parent is the empty name.  So a parent other than the root is
    always the immediate dotted prefix. *)
Theorem parents_are_immediate_prefixes
    (defaults : DispatcherDefaults) (names : list string) :
  let σ := run_calls defaults names bootstrap in
  ∀ a d,
    heap σ !! a = Some d →
    parent_name d = "root"
    ∨ (∃ s, dot_free s = true ∧ name d = parent_name d +:+ "." +:+ s)
    ∨ (dot_free (name d) = true ∧ parent_name d = EmptyString).
Proof.
  intros σ a d Ha.
  destruct (hierarchy_ok_run defaults names bootstrap) with (a := a) (d := d)
    as [_ [Hroot|Hcand]]; [by intros ? ? ?|done|by left|].
  right. rewrite Hcand.
  destruct (last_segment (name d)) as [Hfree|(p & s & Heq & Hs)].
  - right. by rewrite candidate_parent_dot_free.
  - left. exists s. rewrite Heq at 1 2.
    by rewrite candidate_parent_dotted.
Qed.

Lemma parents_are_immediate_prefixes_witness :
  let d := default root_dispatcher (heap nested_state !! 1) in
  parent_name d = "root"
  ∨ (∃ s, dot_free s = true ∧ name d = parent_name d +:+ "." +:+ s)
  ∨ (dot_free (name d) = true ∧ parent_name d = EmptyString).
Proof.
  apply (parents_are_immediate_prefixes library_defaults ["svc"; "svc.sub"] 1).
  by vm_compute.
Defined.

(** X14. No dispatcher object is ever orphaned: after any sequence of
    requests, every object [get_dispatcher] has constructed is the one
    registered under its own name. *)
Theorem constructed_dispatchers_registered
    (defaults : DispatcherDefaults) (names : list string) :
  let σ := run_calls defaults names bootstrap in
  ∀ a d,
    heap σ !! a = Some d →
    get_dispatcher defaults (name d) σ = (Return (heap_ref a), σ).
Proof.
  intros σ a d Ha. apply get_dispatcher_registered.
  destruct (hierarchy_ok_run defaults names bootstrap) with (a := a) (d := d)
    as [Hreg _]; [by intros ? ? ?|done|done].
Qed.

Lemma constructed_dispatchers_registered_witness :
  get_dispatcher library_defaults "svc.sub" nested_state
  = (Return (heap_ref 1), nested_state).
Proof.
  assert (name (default root_dispatcher (heap nested_state !! 1)) = "svc.sub")
    as <- by (by vm_compute).
  apply (constructed_dispatchers_registered library_defaults
           ["svc"; "svc.sub"] 1).
  by vm_compute.
Defined.
